(* Shallow embedding of src/DeepLearning/RNN/rnn.py (Deep-NLP):
   the scaled Embedding layer, the vanilla RNN cell and the BiDirectional
   wrapper, forward passes only.  Scalars are abstract (a class of the host
   tensor library's scalar operations); tensors are nested lists. *)

From Stdlib Require Import String List Bool Arith Lia ZArith.
Open Scope string_scope.
Open Scope list_scope.
Import ListNotations.

(** Scalar operations of the host tensor library (float32 in TensorFlow). *)
Class Scalar (R : Type) := {
  s_zero : R;
  s_add : R -> R -> R;
  s_mul : R -> R -> R;
  s_div : R -> R -> R;
  s_exp : R -> R;
  s_two : R;                       (* the Python literal 2 in [/ 2] *)
  s_pow_half : nat -> R;           (* [n ** 0.5] for a Python int n *)
  s_trunc : R -> Z;                (* cast float -> int32 (truncation) *)
  (* keras.activations registry: activation function by name, if known *)
  s_activation_named : string -> option (list R -> list R)
}.

(** Errors raised along the forward paths. [ValueError] is what the spec
    calls InvalidConfiguration. *)
Inductive exn :=
| ValueError (msg : string)
| InvalidArgumentError (msg : string)
| TypeError (msg : string).

Inductive result (A : Type) :=
| Ok (a : A)
| Err (e : exn).
Arguments Ok {A} a.
Arguments Err {A} e.

Definition bind {A B} (m : result A) (f : A -> result B) : result B :=
  match m with Ok a => f a | Err e => Err e end.

Notation "x <- m ;; k" := (bind m (fun x => k))
  (at level 61, m at next level, right associativity).

Fixpoint mapM {A B} (f : A -> result B) (l : list A) : result (list B) :=
  match l with
  | [] => Ok []
  | x :: l' => y <- f x ;; ys <- mapM f l' ;; Ok (y :: ys)
  end.

Section Tensors.
Context {R : Type} `{Scalar R}.

Local Abbreviation vec := (list R).
Local Abbreviation mat := (list (list R)).   (* row-major *)

Fixpoint zipWith {A B C} (f : A -> B -> C) (l1 : list A) (l2 : list B)
  : list C :=
  match l1, l2 with
  | a :: l1', b :: l2' => f a b :: zipWith f l1' l2'
  | _, _ => []
  end.

Definition zeros (n : nat) : vec := repeat s_zero n.

Definition vadd (u v : vec) : vec := zipWith s_add u v.
Definition vmul (u v : vec) : vec := zipWith s_mul u v.

Definition ncols (M : mat) : nat :=
  match M with [] => 0 | r :: _ => length r end.

(** [K.dot(x, M)] for one row vector [x] : result_j = sum_i x_i * M_i_j. *)
Definition vecmat (x : vec) (M : mat) : vec :=
  fold_left (fun acc p => vadd acc (map (s_mul (fst p)) (snd p)))
            (combine x M) (zeros (ncols M)).

(** [K.softmax] over the last axis. *)
Definition softmax (v : vec) : vec :=
  let s := fold_left s_add (map s_exp v) s_zero in
  map (fun x => s_div (s_exp x) s) v.

(** [A + B] where [A] has shape (B,1,H) and [B] has shape (B,1,H) or (1,H):
    a one-row right operand is broadcast over the batch. *)
Definition add_bcast (A Hs : list vec) : list vec :=
  match Hs with
  | [h] => map (fun a => vadd a h) A
  | _ => zipWith vadd A Hs
  end.

End Tensors.

(* ------------------------------------------------------------------ *)
(** * class Embedding (rnn.py lines 20-43) *)

Module Embedding.
Section Emb.
Context {R : Type} `{Scalar R}.
Local Abbreviation vec := (list R).
Local Abbreviation mat := (list (list R)).

Record t := {
  _vocab_size : nat;
  _model_dim : nat;
  embeddings : mat          (* shape (_vocab_size, _model_dim), from build *)
}.

(** A (batch, time) tensor of token ids with its dtype. *)
Inductive IdTensor :=
| Int32T (d : list (list Z))
| Int64T (d : list (list Z))
| FloatT (d : list (list R)).

Definition wrap_int32 (z : Z) : Z :=
  ((z + 2 ^ 31) mod 2 ^ 32) - 2 ^ 31.

(** [K.cast(inputs, 'int32')]. *)
Definition K_cast_int32 (x : IdTensor) : list (list Z) :=
  match x with
  | Int32T d => d
  | Int64T d => map (map wrap_int32) d
  | FloatT d => map (map s_trunc) d
  end.

(** [K.gather(table, ids)]; TensorFlow rejects an index out of range. *)
Definition K_gather (table : mat) (ids : list (list Z))
  : result (list (list vec)) :=
  mapM (mapM (fun i =>
          if (0 <=? i)%Z && (i <? Z.of_nat (length table))%Z
          then Ok (nth (Z.to_nat i) table [])
          else Err (InvalidArgumentError "indices out of range"%string))) ids.

(** [Embedding.call] (lines 34-39). *)
Definition call (e : t) (x : IdTensor) : result (list (list vec)) :=
  let inputs := match x with
                | Int32T d => d          (* K.dtype(inputs) == 'int32' *)
                | _ => K_cast_int32 x
                end in
  embs <- K_gather (embeddings e) inputs ;;
  Ok (map (map (map (fun y => s_mul y (s_pow_half (_model_dim e))))) embs).

End Emb.
End Embedding.

(* ------------------------------------------------------------------ *)
(** * class RNN (rnn.py lines 46-123) *)

Module RNN.
Section Cell.
Context {R : Type} `{Scalar R}.
Local Abbreviation vec := (list R).
Local Abbreviation mat := (list (list R)).

(** The layer's attributes after [__init__] and [build].  [b] is read only
    when [_use_bias], [V] only when [_return_outputs], [c] only when both. *)
Record t := {
  _kernel_dim : nat;
  _activation : option (vec -> vec);
  _return_outputs : bool;
  _return_states : bool;
  _use_bias : bool;
  U : mat;
  W : mat;
  b : vec;
  V : mat;
  c : vec
}.

(** The [activation] argument of the constructor. *)
Inductive ActArg :=
| ActNone
| ActName (s : string)
| ActCallable (f : vec -> vec).

(** [keras.activations.get]: [None] is mapped to [linear] (the identity),
    a name is looked up in the registry, a callable is kept. *)
Definition activations_get (a : ActArg) : result (vec -> vec) :=
  match a with
  | ActNone => Ok (fun v => v)
  | ActName s =>
      match s_activation_named s with
      | Some f => Ok f
      | None => Err (ValueError (String.append "Unknown activation function: " s))
      end
  | ActCallable f => Ok f
  end.

(** [RNN.__init__] followed by [build] with the given weights. *)
Definition init (kernel_dim : nat) (activation : ActArg)
    (return_outputs return_states use_bias : bool)
    (U0 W0 : mat) (b0 : vec) (V0 : mat) (c0 : vec) : result t :=
  f <- activations_get activation ;;
  Ok {| _kernel_dim := kernel_dim; _activation := Some f;
        _return_outputs := return_outputs; _return_states := return_states;
        _use_bias := use_bias; U := U0; W := W0; b := b0; V := V0; c := c0 |}.

(** [inputs.shape[1]] of a (batch, time, features) tensor. *)
Definition time_steps (inputs : list (list vec)) : nat :=
  match inputs with [] => 0 | s :: _ => length s end.

(** Loop state: [h_t] (shape (1,H) at first, then (B,1,H); the singleton
    middle axis is left out), [ots], [hts] (Python lists of per-step
    tensors, in append order). *)
Definition state : Type := (list vec * list (list vec) * list (list vec))%type.

(** One iteration of the [for t in range(inputs.shape[1])] loop
    (lines 99-111). *)
Definition step (cell : t) (inputs : list (list vec)) (st : state) (ti : nat)
  : state :=
  let '(h_t, ots, hts) := st in
  let x_t := map (fun s => nth ti s []) inputs in
  let a_t := add_bcast (map (fun x => vecmat x (U cell)) x_t)
                       (map (fun hr => vecmat hr (W cell)) h_t) in
  let a_t := if _use_bias cell then map (fun r => vadd r (b cell)) a_t
             else a_t in
  let '(h_t, hts) :=
    match _activation cell with
    | Some f => let h' := map f a_t in (h', hts ++ [h'])
    | None => (h_t, hts)
    end in
  let ots :=
    if _return_outputs cell then
      let o_t := map (fun r => vecmat r (V cell)) h_t in
      let o_t := if _use_bias cell then map (fun r => vadd r (c cell)) o_t
                 else o_t in
      ots ++ [map softmax o_t]
    else ots in
  (h_t, ots, hts).

Definition loop (cell : t) (inputs : list (list vec)) : state :=
  fold_left (step cell inputs) (seq 0 (time_steps inputs))
            ([zeros (_kernel_dim cell)], [], []).

Inductive Out :=
| OutTensor (h : list vec)
| OutList (s : list (list vec))
| OutTuple (o s : list (list vec)).

(** [RNN.call] (lines 95-119). *)
Definition call (cell : t) (inputs : list (list vec)) : Out :=
  let '(h_t, ots, hts) := loop cell inputs in
  let outputs := OutTensor h_t in
  let outputs := if _return_outputs cell then OutList ots else outputs in
  let outputs := if _return_states cell then OutList hts else outputs in
  let outputs := if _return_outputs cell && _return_states cell
                 then OutTuple ots hts else outputs in
  outputs.

Definition hts_of (cell : t) (inputs : list (list vec)) : list (list vec) :=
  let '(_, _, hts) := loop cell inputs in hts.
Definition ots_of (cell : t) (inputs : list (list vec)) : list (list vec) :=
  let '(_, ots, _) := loop cell inputs in ots.
Definition h_of (cell : t) (inputs : list (list vec)) : list vec :=
  let '(h, _, _) := loop cell inputs in h.

End Cell.
End RNN.

(* ------------------------------------------------------------------ *)
(** * class BiDirectional (rnn.py lines 126-181) *)

Module BiDirectional.
Section Bi.
Context {R : Type} `{Scalar R}.
Local Abbreviation vec := (list R).
Local Open Scope string_scope.

Record t := {
  _rnn_cell : @RNN.t R;
  _merge_mode : option string;      (* a Python str, or None *)
  _return_outputs : bool;
  _return_states : bool
}.

(** A double-quote character, to spell the messages' literals. *)
Definition dq : string := String (Ascii.ascii_of_nat 34) EmptyString.
Definition q (s : string) : string := dq ++ s ++ dq.

Definition invalid_merge_msg : string :=
  "Invalid merge mode. Merge mode should be one of {" ++ q "sum" ++ ", " ++
  q "mul" ++ ", " ++ q "ave" ++ ", " ++ q "concat" ++ ", None}".

Definition return_states_msg : string :=
  "BiDirectional rnn cell must set `_return_states` to True.".

Definition unrecognized_msg (m : string) : string :=
  "Unrecognized value for argument merge_mode: " ++ m.

(** Whether [needle] occurs in [hay], to ask if a message names a value. *)
Fixpoint str_contains (needle hay : string) : bool :=
  String.prefix needle hay ||
  match hay with EmptyString => false | String _ hay' => str_contains needle hay' end.

Definition opt_str_eqb (x y : option string) : bool :=
  match x, y with
  | Some a, Some b' => String.eqb a b'
  | None, None => true
  | _, _ => false
  end.

Definition merge_modes : list (option string) :=
  [Some "sum"; Some "mul"; Some "ave"; Some "concat"; None].

(** [BiDirectional.__init__] (lines 128-137). *)
Definition init (rnn_cell : @RNN.t R) (merge_mode : option string)
  : result t :=
  if negb (existsb (opt_str_eqb merge_mode) merge_modes) then
    Err (ValueError invalid_merge_msg)
  else
    Ok {| _rnn_cell := rnn_cell; _merge_mode := merge_mode;
          _return_outputs := RNN._return_outputs rnn_cell;
          _return_states := RNN._return_states rnn_cell |}.

(** [K.reverse(x, 1)] on a Python list of T per-step tensors of shape
    (B,1,H): the list is stacked into a (T,B,1,H) tensor, so axis 1 is the
    batch axis.  An empty list stacks to a rank-1 tensor, which has no
    axis 1. *)
Definition K_reverse_states (s : list (list vec))
  : result (list (list vec)) :=
  match s with
  | [] => Err (InvalidArgumentError "axis 1 out of range")
  | _ => Ok (map (@rev vec) s)
  end.

(** [K.reverse(inputs, 1)] on a (B,T,D) tensor: axis 1 is time. *)
Definition K_reverse_inputs (inputs : list (list vec)) : list (list vec) :=
  map (@rev vec) inputs.

Inductive Out :=
| OutTensor (x : list (list vec))
| OutList (fw bw : list (list vec)).     (* [[fw_states, bw_states]] *)

(** The merge of lines 156-168. *)
Definition merge (merge_mode : option string) (fw_states bw_states : list (list vec))
  : result Out :=
  match merge_mode with
  | Some "concat" => Ok (OutTensor (zipWith (zipWith (@app R)) fw_states bw_states))
  | Some "sum" => Ok (OutTensor (zipWith (zipWith vadd) fw_states bw_states))
  | Some "ave" =>
      Ok (OutTensor (zipWith (zipWith (fun u v =>
                       map (fun z => s_div z s_two) (vadd u v)))
                     fw_states bw_states))
  | Some "mul" => Ok (OutTensor (zipWith (zipWith vmul) fw_states bw_states))
  | None => Ok (OutList fw_states bw_states)
  | Some m => Err (ValueError (unrecognized_msg m))
  end.

(** [BiDirectional.call] (lines 139-169). *)
Definition call (bd : t) (inputs : list (list vec)) : result Out :=
  let reverse_inputs := K_reverse_inputs inputs in
  let rnn_fw_outputs := RNN.call (_rnn_cell bd) inputs in
  let rnn_bw_outputs := RNN.call (_rnn_cell bd) reverse_inputs in
  states <-
    (if _return_states bd then
       if _return_outputs bd then
         match rnn_fw_outputs, rnn_bw_outputs with
         | RNN.OutTuple _ fw, RNN.OutTuple _ bw => Ok (fw, bw)
         | _, _ => Err (TypeError "cannot unpack")
         end
       else
         match rnn_fw_outputs, rnn_bw_outputs with
         | RNN.OutList fw, RNN.OutList bw => Ok (fw, bw)
         | _, _ => Err (TypeError "not a list of states")
         end
     else Err (ValueError return_states_msg)) ;;
  let '(fw_states, bw_states) := states in
  fw_states <- K_reverse_states fw_states ;;
  bw_states <- K_reverse_states bw_states ;;
  merge (_merge_mode bd) fw_states bw_states.

End Bi.
End BiDirectional.

(* ------------------------------------------------------------------ *)
(** * [compute_output_shape] (lines 41-43, 121-123, 172-181), over the
    Python values they handle: shapes are tuples of ints (or None), the
    RNN's result is a list of two shapes. *)

Module Shape.

Local Set Warnings "-register-all".

Inductive val :=
| PInt (z : Z)
| PNone
| PTuple (l : list val)
| PList (l : list val).

Inductive perr := PTypeError | PIndexError | PValueError.

Definition pres (A : Type) : Type := (A + perr)%type.

Definition pbind {A B} (m : pres A) (k : A -> pres B) : pres B :=
  match m with inl a => k a | inr e => inr e end.

Local Notation "x <-- m ;; k" := (pbind m (fun x => k))
  (at level 61, m at next level, right associativity).

(** [v[:-1]] *)
Definition slice_drop_last (v : val) : pres val :=
  match v with
  | PTuple l => inl (PTuple (removelast l))
  | PList l => inl (PList (removelast l))
  | _ => inr PTypeError
  end.

(** [v[-1]] *)
Definition index_last (v : val) : pres val :=
  match v with
  | PTuple l | PList l =>
      match rev l with x :: _ => inl x | [] => inr PIndexError end
  | _ => inr PTypeError
  end.

(** [v + w] *)
Definition add (v w : val) : pres val :=
  match v, w with
  | PInt a, PInt b' => inl (PInt (a + b'))
  | PTuple a, PTuple b' => inl (PTuple (a ++ b'))
  | PList a, PList b' => inl (PList (a ++ b'))
  | _, _ => inr PTypeError
  end.

(** [v * w] (sequence repetition when one side is a tuple or list). *)
Definition mul (v w : val) : pres val :=
  match v, w with
  | PInt a, PInt b' => inl (PInt (a * b'))
  | PTuple l, PInt n | PInt n, PTuple l =>
      inl (PTuple (concat (repeat l (Z.to_nat n))))
  | PList l, PInt n | PInt n, PList l =>
      inl (PList (concat (repeat l (Z.to_nat n))))
  | _, _ => inr PTypeError
  end.

(** [_, x = v] *)
Definition unpack2 (v : val) : pres (val * val) :=
  match v with
  | PTuple [a; b'] | PList [a; b'] => inl (a, b')
  | PTuple _ | PList _ => inr PValueError
  | _ => inr PTypeError
  end.

(** [Embedding.compute_output_shape] *)
Definition embedding_cos (e_model_dim : nat) (input_shape : val) : pres val :=
  add input_shape (PTuple [PInt (Z.of_nat e_model_dim)]).

(** [RNN.compute_output_shape] *)
Definition rnn_cos (kernel_dim : nat) (input_shape : val) : pres val :=
  t1 <-- slice_drop_last input_shape ;;
  t1 <-- add t1 (PTuple [PInt (Z.of_nat kernel_dim)]) ;;
  t2 <-- slice_drop_last input_shape ;;
  t2 <-- add t2 (PTuple [PInt (Z.of_nat kernel_dim)]) ;;
  inl (PList [t1; t2]).

(** [BiDirectional.compute_output_shape] *)
Definition bidirectional_cos {R : Type} (bd : @BiDirectional.t R)
    (input_shape : val) : pres val :=
  output_shape <-- rnn_cos (RNN._kernel_dim (BiDirectional._rnn_cell bd)) input_shape ;;
  output_shape <--
    (if BiDirectional._return_states bd then
       if BiDirectional._return_outputs bd then
         p <-- unpack2 output_shape ;; inl (snd p)
       else inl output_shape
     else inl output_shape) ;;
  match BiDirectional._merge_mode bd with
  | Some m =>
      if String.eqb m "concat" then
        a <-- slice_drop_last output_shape ;;
        l <-- index_last output_shape ;;
        m <-- mul l (PInt 2) ;;
        add a m
      else inl output_shape                 (* 'sum', 'ave', 'mul' *)
  | None => inl (PList [output_shape; output_shape])
  end.

(** The shape of a nested (B, T, D) list, as a tuple, when rectangular. *)
Definition shape3 {A} (x : list (list (list A))) : val :=
  match x with
  | [] => PTuple [PInt 0]
  | r :: _ =>
      match r with
      | [] => PTuple [PInt (Z.of_nat (length x)); PInt 0]
      | v :: _ => PTuple [PInt (Z.of_nat (length x)); PInt (Z.of_nat (length r));
                          PInt (Z.of_nat (length v))]
      end
  end.

End Shape.

(* ------------------------------------------------------------------ *)
(** * Reference recurrence, written from the words of the spec (section
    4.2), per batch element: [a_t = x_t U + h_{t-1} W (+ b)],
    [h_t = activation(a_t)], [o_t = softmax(h_t V (+ c))], [h_{-1} = 0]. *)

Module Reference.
Section Ref.
Context {R : Type} `{Scalar R}.
Local Abbreviation vec := (list R).

Definition spec_step (cell : @RNN.t R) (f : vec -> vec) (h x : vec) : vec :=
  let a := vadd (vecmat x (RNN.U cell)) (vecmat h (RNN.W cell)) in
  f (if RNN._use_bias cell then vadd a (RNN.b cell) else a).

Fixpoint spec_states (cell : @RNN.t R) (f : vec -> vec) (h : vec)
    (xs : list vec) : list vec :=
  match xs with
  | [] => []
  | x :: xs' => let h' := spec_step cell f h x in h' :: spec_states cell f h' xs'
  end.

Definition spec_output (cell : @RNN.t R) (h : vec) : vec :=
  softmax (if RNN._use_bias cell then vadd (vecmat h (RNN.V cell)) (RNN.c cell)
           else vecmat h (RNN.V cell)).

(** Hidden state of batch element [s] at time [ti]. *)
Definition h_at (cell : @RNN.t R) (f : vec -> vec) (s : list vec) (ti : nat)
  : vec :=
  nth ti (spec_states cell f (zeros (RNN._kernel_dim cell)) s) [].

(** The per-step state tensors and output tensors, time-major as the
    Python lists [hts] and [ots] are. *)
Definition spec_hts (cell : @RNN.t R) (f : vec -> vec) (inputs : list (list vec))
  : list (list vec) :=
  map (fun ti => map (fun s => h_at cell f s ti) inputs)
      (seq 0 (RNN.time_steps inputs)).

Definition spec_ots (cell : @RNN.t R) (f : vec -> vec) (inputs : list (list vec))
  : list (list vec) :=
  map (fun ti => map (fun s => spec_output cell (h_at cell f s ti)) inputs)
      (seq 0 (RNN.time_steps inputs)).

End Ref.
End Reference.

(* ------------------------------------------------------------------ *)
(** * Concrete instances: integer scalars.  The examples only add and
    multiply small integers (exact in float32 too); [exp] and [n ** 0.5]
    are stood in by simple integer functions, exact at the values used. *)

Module ZInst.
#[export] Instance Scalar_Z : Scalar Z := {|
  s_zero := 0%Z; s_add := Z.add; s_mul := Z.mul; s_div := Z.div;
  s_exp := fun x => x; s_two := 2%Z;
  s_pow_half := fun n => Z.sqrt (Z.of_nat n);
  s_trunc := fun x => x;
  s_activation_named := fun s =>
    if String.eqb s "linear" then Some (fun v => v) else None
|}.
End ZInst.
Import ZInst.

Module Examples.

(** [RNN(1, activation='linear', return_states=True, use_bias=False)] with
    its weights [U = W = V = [[1]]]. *)
Definition cell_ex (ro rs : bool) : @RNN.t Z :=
  {| RNN._kernel_dim := 1; RNN._activation := Some (fun v => v);
     RNN._return_outputs := ro; RNN._return_states := rs;
     RNN._use_bias := false;
     RNN.U := [[1%Z]]; RNN.W := [[1%Z]]; RNN.b := [0%Z];
     RNN.V := [[1%Z]]; RNN.c := [0%Z] |}.

(** [cell_ex false true] with an output head: [return_outputs=True] and
    other [V], [c]. *)
Definition cell_head : @RNN.t Z :=
  {| RNN._kernel_dim := 1; RNN._activation := Some (fun v => v);
     RNN._return_outputs := true; RNN._return_states := true;
     RNN._use_bias := false;
     RNN.U := [[1%Z]]; RNN.W := [[1%Z]]; RNN.b := [0%Z];
     RNN.V := [[7%Z]]; RNN.c := [3%Z] |}.

(** One sequence [1, 2] (batch 1, time 2, one feature). *)
Definition seq_ex : list (list (list Z)) := [[[1%Z]; [2%Z]]].

(** Two one-step sequences [1] and [5] (batch 2, time 1). *)
Definition batch_ex : list (list (list Z)) := [[[1%Z]]; [[5%Z]]].

(** The spec's example table: vocab_size = 10, model_dim = 4, row i is
    [i, i, i, i]. *)
Definition emb_ex : @Embedding.t Z :=
  {| Embedding._vocab_size := 10; Embedding._model_dim := 4;
     Embedding.embeddings :=
       map (fun i => repeat (Z.of_nat i) 4) (seq 0 10) |}.

(** The object [BiDirectional(cell, merge_mode)] stores. *)
Definition bd_of (cell : @RNN.t Z) (mm : option string) : @BiDirectional.t Z :=
  {| BiDirectional._rnn_cell := cell; BiDirectional._merge_mode := mm;
     BiDirectional._return_outputs := RNN._return_outputs cell;
     BiDirectional._return_states := RNN._return_states cell |}.

End Examples.

(* ------------------------------------------------------------------ *)
(** * Lemmas *)

Section Lemmas.
Context {R : Type} `{Scalar R}.
Local Abbreviation vec := (list R).

Lemma add_bcast_map_single (A : list vec) (g : vec -> vec) (v : vec) :
  add_bcast (map g A) [v] = map (fun s => vadd (g s) v) A.
Proof. unfold add_bcast. rewrite map_map. reflexivity. Qed.

Lemma zipWith_map {A B C D} (f : B -> C -> D) (g : A -> B) (g' : A -> C)
    (l : list A) :
  zipWith f (map g l) (map g' l) = map (fun s => f (g s) (g' s)) l.
Proof. induction l; simpl; congruence. Qed.

Lemma add_bcast_map2 {A} (l : list A) (g g' : A -> vec) :
  add_bcast (map g l) (map g' l) = map (fun s => vadd (g s) (g' s)) l.
Proof.
  destruct l as [|x [|y l]]; try reflexivity.
  exact (zipWith_map vadd g g' (x :: y :: l)).
Qed.

Definition prev_state (h0 : vec) (hs : list vec) (k : nat) : vec :=
  match k with 0 => h0 | S k' => nth k' hs [] end.

Lemma spec_states_nth (cell : @RNN.t R) f (xs : list vec) :
  forall h0 k, k < length xs ->
  nth k (Reference.spec_states cell f h0 xs) [] =
  Reference.spec_step cell f
    (prev_state h0 (Reference.spec_states cell f h0 xs) k) (nth k xs []).
Proof.
  induction xs as [|x xs IH]; intros h0 k Hk; simpl in Hk; [lia|].
  destruct k as [|k]; [reflexivity|].
  simpl. rewrite IH by lia.
  destruct k; reflexivity.
Qed.

Lemma step_pre_activation (cell : @RNN.t R) f (inputs : list (list vec)) k
    (h_k : list vec) :
  h_k = (match k with
         | 0 => [zeros (RNN._kernel_dim cell)]
         | S k' => map (fun s => Reference.h_at cell f s k') inputs
         end) ->
  add_bcast (map (fun x => vecmat x (RNN.U cell)) (map (fun s => nth k s []) inputs))
            (map (fun hr => vecmat hr (RNN.W cell)) h_k) =
  map (fun s => vadd (vecmat (nth k s []) (RNN.U cell))
                     (vecmat (prev_state (zeros (RNN._kernel_dim cell))
                        (Reference.spec_states cell f
                           (zeros (RNN._kernel_dim cell)) s) k) (RNN.W cell)))
      inputs.
Proof.
  intros ->. rewrite map_map. destruct k as [|k].
  - cbn [map add_bcast]. rewrite map_map. reflexivity.
  - rewrite map_map, add_bcast_map2. reflexivity.
Qed.

Lemma loop_prefix (cell : @RNN.t R) f (inputs : list (list vec)) k :
  RNN._activation cell = Some f ->
  Forall (fun s => k <= length s) inputs ->
  fold_left (RNN.step cell inputs) (seq 0 k)
            ([zeros (RNN._kernel_dim cell)], [], []) =
  (match k with
   | 0 => [zeros (RNN._kernel_dim cell)]
   | S k' => map (fun s => Reference.h_at cell f s k') inputs
   end,
   if RNN._return_outputs cell then
     map (fun ti => map (fun s => Reference.spec_output cell
                                   (Reference.h_at cell f s ti)) inputs) (seq 0 k)
   else [],
   map (fun ti => map (fun s => Reference.h_at cell f s ti) inputs) (seq 0 k)).
Proof.
  intros Hact. induction k as [|k IH]; intros Hlen.
  - destruct (RNN._return_outputs cell); reflexivity.
  - rewrite seq_S, fold_left_app, IH.
    2:{ eapply Forall_impl; [|exact Hlen]. simpl; intros; lia. }
    simpl fold_left. unfold RNN.step.
    rewrite (step_pre_activation cell f inputs k _ eq_refl), Hact.
    assert (Hh : map f (if RNN._use_bias cell then
                   map (fun r => vadd r (RNN.b cell))
                     (map (fun s => vadd (vecmat (nth k s []) (RNN.U cell))
                        (vecmat (prev_state (zeros (RNN._kernel_dim cell))
                           (Reference.spec_states cell f
                              (zeros (RNN._kernel_dim cell)) s) k) (RNN.W cell)))
                      inputs)
                   else map (fun s => vadd (vecmat (nth k s []) (RNN.U cell))
                        (vecmat (prev_state (zeros (RNN._kernel_dim cell))
                           (Reference.spec_states cell f
                              (zeros (RNN._kernel_dim cell)) s) k) (RNN.W cell)))
                      inputs)
                 = map (fun s => Reference.h_at cell f s k) inputs).
    { destruct (RNN._use_bias cell) eqn:Eb; rewrite ?map_map; apply map_ext_in;
        intros s Hs; unfold Reference.h_at;
        rewrite spec_states_nth
          by (rewrite Forall_forall in Hlen; specialize (Hlen s Hs); lia);
        unfold Reference.spec_step; rewrite Eb; reflexivity. }
    rewrite Hh. rewrite !map_app. simpl map.
    destruct (RNN._return_outputs cell); [|reflexivity].
    f_equal. f_equal. f_equal. f_equal.
    unfold Reference.spec_output.
    destruct (RNN._use_bias cell); rewrite ?map_map; reflexivity.
Qed.

End Lemmas.

Section LoopLemmas.
Context {R : Type} `{Scalar R}.
Local Abbreviation vec := (list R).

Lemma fold_left_invariant {A S} (P : S -> Prop) (g : S -> A -> S) (l : list A) :
  (forall s a, P s -> P (g s a)) -> forall s, P s -> P (fold_left g l s).
Proof. intros Hg. induction l as [|a l IH]; intros s Hs; simpl; auto. Qed.

(** The carried [h_t] is always the last appended state (or the initial
    zero state when none was appended). *)
Lemma loop_h_last (cell : @RNN.t R) (inputs : list (list vec)) :
  RNN.h_of cell inputs =
  last (RNN.hts_of cell inputs) [zeros (RNN._kernel_dim cell)].
Proof.
  unfold RNN.h_of, RNN.hts_of, RNN.loop.
  set (P := fun st : @RNN.state R =>
        let '(h, _, hts) := st in h = last hts [zeros (RNN._kernel_dim cell)]).
  assert (HP : P (fold_left (RNN.step cell inputs) (seq 0 (RNN.time_steps inputs))
                   ([zeros (RNN._kernel_dim cell)], [], []))).
  { apply fold_left_invariant; [|reflexivity].
    intros [[h ots] hts] ti Hs. unfold RNN.step.
    destruct (RNN._activation cell) as [f|]; simpl.
    - destruct (RNN._return_outputs cell); simpl; rewrite last_last; reflexivity.
    - destruct (RNN._return_outputs cell); exact Hs. }
  destruct (fold_left _ _ _) as [[h ots] hts]. exact HP.
Qed.

(** With an activation set, every step appends one state. *)
Lemma step_hts_length (cell : @RNN.t R) f (inputs : list (list vec)) st ti :
  RNN._activation cell = Some f ->
  length (snd (RNN.step cell inputs st ti)) = S (length (snd st)).
Proof.
  intros Hact. destruct st as [[h ots] hts]. unfold RNN.step. rewrite Hact.
  destruct (RNN._return_outputs cell); simpl; rewrite length_app; simpl; lia.
Qed.

Lemma fold_hts_length (cell : @RNN.t R) f (inputs : list (list vec)) l :
  RNN._activation cell = Some f ->
  forall st,
  length (snd (fold_left (RNN.step cell inputs) l st)) = length (snd st) + length l.
Proof.
  intros Hact. induction l as [|ti l IH]; intros st; simpl.
  - lia.
  - rewrite IH, (step_hts_length cell f inputs st ti Hact). lia.
Qed.

Lemma hts_length (cell : @RNN.t R) f (inputs : list (list vec)) :
  RNN._activation cell = Some f ->
  length (RNN.hts_of cell inputs) = RNN.time_steps inputs.
Proof.
  intros Hact. unfold RNN.hts_of, RNN.loop.
  pose proof (fold_hts_length cell f inputs (seq 0 (RNN.time_steps inputs)) Hact
                ([zeros (RNN._kernel_dim cell)], [], [])) as Hl.
  destruct (fold_left _ _ _) as [[? ?] ?]. simpl in Hl. rewrite Hl, length_seq.
  reflexivity.
Qed.
Lemma Forall_zipWith {A B C} (P : A -> Prop) (Q : B -> Prop) (S : C -> Prop)
    (f : A -> B -> C) (l1 : list A) (l2 : list B) :
  Forall P l1 -> Forall Q l2 -> (forall a b', P a -> Q b' -> S (f a b')) ->
  Forall S (zipWith f l1 l2).
Proof.
  intros H1. revert l2. induction H1 as [|a l1 Ha H1 IH]; intros l2 H2 Hf;
    [constructor|]. destruct H2 as [|b' l2 Hb H2]; simpl; constructor; auto.
Qed.

Lemma Forall_nth_default {A} (P : A -> Prop) (l : list A) n d :
  Forall P l -> P d -> P (nth n l d).
Proof.
  intros Hl Hd. destruct (nth_in_or_default n l d) as [Hin | ->]; [|exact Hd].
  rewrite Forall_forall in Hl. auto.
Qed.

Lemma Forall_add_bcast (P : vec -> Prop) (A Hs : list vec) :
  (forall u v, P u -> P v -> P (vadd u v)) ->
  Forall P A -> Forall P Hs -> Forall P (add_bcast A Hs).
Proof.
  intros Hadd HA HH. unfold add_bcast.
  destruct Hs as [|h [|h2 Hs]].
  - apply (Forall_zipWith P P); auto.
  - inversion HH; subst. apply Forall_map. eapply Forall_impl; [|exact HA].
    intros; auto.
  - apply (Forall_zipWith P P); auto.
Qed.

Lemma mapM_ok {A B} (f : A -> result B) (g : A -> B) (l : list A) :
  (forall a, In a l -> f a = Ok (g a)) -> mapM f l = Ok (map g l).
Proof.
  induction l as [|a l IH]; intros Hf; simpl; [reflexivity|].
  rewrite Hf by (left; reflexivity). simpl.
  rewrite IH by (intros; apply Hf; right; assumption). reflexivity.
Qed.

Lemma Forall2_map_self {A B} (P : B -> A -> Prop) (g : A -> B) (l : list A) :
  Forall (fun a => P (g a) a) l -> Forall2 P (map g l) l.
Proof. induction 1; simpl; constructor; auto. Qed.

Section Zero.
Hypothesis mul_zero_l : forall y : R, s_mul s_zero y = s_zero.
Hypothesis add_zero_zero : s_add s_zero s_zero = s_zero.

Lemma vadd_all_zero (u v : vec) :
  Forall (eq s_zero) u -> Forall (eq s_zero) v -> Forall (eq s_zero) (vadd u v).
Proof.
  intros Hu Hv. apply (Forall_zipWith _ _ _ _ _ _ Hu Hv).
  intros a b' <- <-. symmetry. exact add_zero_zero.
Qed.

Lemma vecmat_all_zero (x : vec) (M : list vec) :
  Forall (eq s_zero) x -> Forall (eq s_zero) (vecmat x M).
Proof.
  intros Hx. unfold vecmat.
  assert (Hc : Forall (fun p => fst p = s_zero) (combine x M)).
  { apply Forall_forall. intros [a r] Hin. simpl.
    apply in_combine_l in Hin. rewrite Forall_forall in Hx. symmetry; auto. }
  assert (H0 : Forall (eq s_zero) (zeros (ncols M))).
  { unfold zeros. apply Forall_forall. intros a Ha.
    apply repeat_spec in Ha. congruence. }
  revert H0. generalize (zeros (ncols M)).
  induction Hc as [|p l Ha Hc IH]; intros acc Hacc; simpl; [exact Hacc|].
  apply IH. apply vadd_all_zero; [exact Hacc|]. destruct p as [a r].
  simpl in Ha |- *. subst a.
  apply Forall_map, Forall_forall. intros; symmetry; apply mul_zero_l.
Qed.

End Zero.

End LoopLemmas.

Section BiLemmas.
Context {R : Type} `{Scalar R}.
Local Abbreviation vec := (list R).

Lemma rnn_call_states (cell : @RNN.t R) (inputs : list (list vec)) :
  RNN._return_states cell = true ->
  (RNN._return_outputs cell = true ->
     exists o, RNN.call cell inputs = RNN.OutTuple o (RNN.hts_of cell inputs)) /\
  (RNN._return_outputs cell = false ->
     RNN.call cell inputs = RNN.OutList (RNN.hts_of cell inputs)).
Proof.
  intros Hrs. unfold RNN.call, RNN.hts_of.
  destruct (RNN.loop cell inputs) as [[h ots] hts]. rewrite Hrs.
  split; intros Hro; rewrite Hro; simpl; eauto.
Qed.

Lemma init_ok (cell : @RNN.t R) mm bd :
  BiDirectional.init cell mm = Ok bd ->
  existsb (BiDirectional.opt_str_eqb mm) BiDirectional.merge_modes = true /\
  bd = {| BiDirectional._rnn_cell := cell; BiDirectional._merge_mode := mm;
          BiDirectional._return_outputs := RNN._return_outputs cell;
          BiDirectional._return_states := RNN._return_states cell |}.
Proof.
  unfold BiDirectional.init.
  destruct (existsb _ _); simpl; intros Hi; inversion Hi; auto.
Qed.

(** The five accepted merge modes are exactly the ones [merge] handles. *)
Lemma merge_accepted_ok mm (fw bw : list (list vec)) :
  existsb (BiDirectional.opt_str_eqb mm) BiDirectional.merge_modes = true ->
  exists out, BiDirectional.merge mm fw bw = Ok out.
Proof.
  intros Hm. destruct mm as [m|]; [|eexists; reflexivity].
  simpl in Hm. unfold BiDirectional.merge.
  destruct (String.eqb_spec m "sum"); [subst; eexists; reflexivity|].
  destruct (String.eqb_spec m "mul"); [subst; eexists; reflexivity|].
  destruct (String.eqb_spec m "ave"); [subst; eexists; reflexivity|].
  destruct (String.eqb_spec m "concat"); [subst; eexists; reflexivity|].
  discriminate.
Qed.

Lemma bidir_call_states (cell : @RNN.t R) mm bd (inputs : list (list vec)) :
  BiDirectional.init cell mm = Ok bd ->
  RNN._return_states cell = true ->
  BiDirectional.call bd inputs =
    (fw <- BiDirectional.K_reverse_states (RNN.hts_of cell inputs) ;;
     bw <- BiDirectional.K_reverse_states
             (RNN.hts_of cell (BiDirectional.K_reverse_inputs inputs)) ;;
     BiDirectional.merge mm fw bw).
Proof.
  intros Hi Hrs. apply init_ok in Hi. destruct Hi as [_ ->].
  unfold BiDirectional.call. simpl. rewrite Hrs.
  destruct (RNN._return_outputs cell) eqn:Hro.
  - destruct (proj1 (rnn_call_states cell inputs Hrs) Hro) as [o1 ->].
    destruct (proj1 (rnn_call_states cell (BiDirectional.K_reverse_inputs inputs) Hrs) Hro)
      as [o2 ->].
    reflexivity.
  - rewrite (proj2 (rnn_call_states cell inputs Hrs) Hro).
    rewrite (proj2 (rnn_call_states cell (BiDirectional.K_reverse_inputs inputs) Hrs) Hro).
    reflexivity.
Qed.

Lemma K_reverse_states_err (s : list (list vec)) e :
  BiDirectional.K_reverse_states s = Err e ->
  e = InvalidArgumentError "axis 1 out of range".
Proof. destruct s; simpl; congruence. Qed.

Lemma time_steps_reverse (inputs : list (list vec)) :
  RNN.time_steps (BiDirectional.K_reverse_inputs inputs) = RNN.time_steps inputs.
Proof. destruct inputs; simpl; [reflexivity|]. apply length_rev. Qed.

Lemma length_zipWith {A B C} (f : A -> B -> C) l1 l2 :
  length (zipWith f l1 l2) = Nat.min (length l1) (length l2).
Proof.
  revert l2; induction l1; destruct l2; simpl; auto.
Qed.

(** Shapes of a cell of hidden width [Hd] whose weights were built for it. *)
Definition well_shaped (cell : @RNN.t R) (Hd : nat) (f : vec -> vec) : Prop :=
  RNN._kernel_dim cell = Hd /\
  RNN._activation cell = Some f /\
  (forall v, length (f v) = length v) /\
  ncols (RNN.U cell) = Hd /\ Forall (fun r => length r = Hd) (RNN.U cell) /\
  ncols (RNN.W cell) = Hd /\ Forall (fun r => length r = Hd) (RNN.W cell) /\
  (RNN._use_bias cell = true -> length (RNN.b cell) = Hd).

Lemma vecmat_length (x : vec) (M : list vec) Hd :
  ncols M = Hd -> Forall (fun r => length r = Hd) M -> length (vecmat x M) = Hd.
Proof.
  intros Hn HM. unfold vecmat.
  assert (Hc : Forall (fun p => length (snd p) = Hd) (combine x M)).
  { apply Forall_forall. intros [a r] Hin. apply in_combine_r in Hin.
    rewrite Forall_forall in HM. simpl. auto. }
  assert (H0 : length (zeros (ncols M)) = Hd).
  { unfold zeros. rewrite repeat_length. exact Hn. }
  revert H0. generalize (zeros (ncols M)).
  induction Hc as [|p l Hp Hc IH]; intros acc Hacc; simpl; [exact Hacc|].
  apply IH. unfold vadd. rewrite length_zipWith, length_map, Hacc, Hp. lia.
Qed.

Lemma hts_width (cell : @RNN.t R) Hd f (inputs : list (list vec)) :
  well_shaped cell Hd f ->
  Forall (Forall (fun v => length v = Hd)) (RNN.hts_of cell inputs).
Proof.
  intros (Hk & Hact & Hf & HnU & HU & HnW & HW & Hb).
  unfold RNN.hts_of, RNN.loop.
  set (P := fun st : @RNN.state R =>
        let '(h, _, hts) := st in
        Forall (fun v => length v = Hd) h /\
        Forall (Forall (fun v => length v = Hd)) hts).
  assert (HP : P (fold_left (RNN.step cell inputs) (seq 0 (RNN.time_steps inputs))
                   ([zeros (RNN._kernel_dim cell)], [], []))).
  { apply fold_left_invariant.
    - intros [[h ots] hts] ti [Hh Hhts].
      assert (Ha : Forall (fun v => length v = Hd)
        (add_bcast (map (fun x => vecmat x (RNN.U cell)) (map (fun s => nth ti s []) inputs))
                   (map (fun hr => vecmat hr (RNN.W cell)) h))).
      { apply Forall_add_bcast.
        - intros u v Hu Hv. unfold vadd. rewrite length_zipWith, Hu, Hv. lia.
        - apply Forall_map, Forall_forall. intros; apply vecmat_length; auto.
        - apply Forall_map, Forall_forall. intros; apply vecmat_length; auto. }
      assert (Hab : Forall (fun v => length v = Hd)
        (if RNN._use_bias cell then
           map (fun r => vadd r (RNN.b cell))
             (add_bcast (map (fun x => vecmat x (RNN.U cell)) (map (fun s => nth ti s []) inputs))
                        (map (fun hr => vecmat hr (RNN.W cell)) h))
         else add_bcast (map (fun x => vecmat x (RNN.U cell)) (map (fun s => nth ti s []) inputs))
                        (map (fun hr => vecmat hr (RNN.W cell)) h))).
      { destruct (RNN._use_bias cell) eqn:Eb; [|exact Ha].
        apply Forall_map. eapply Forall_impl; [|exact Ha]. simpl. intros v Hv.
        unfold vadd. rewrite length_zipWith, Hv, Hb by reflexivity. lia. }
      assert (Hfa : Forall (fun v => length v = Hd) (map f
        (if RNN._use_bias cell then
           map (fun r => vadd r (RNN.b cell))
             (add_bcast (map (fun x => vecmat x (RNN.U cell)) (map (fun s => nth ti s []) inputs))
                        (map (fun hr => vecmat hr (RNN.W cell)) h))
         else add_bcast (map (fun x => vecmat x (RNN.U cell)) (map (fun s => nth ti s []) inputs))
                        (map (fun hr => vecmat hr (RNN.W cell)) h)))).
      { apply Forall_map. eapply Forall_impl; [|exact Hab]. intros v Hv.
        rewrite Hf. exact Hv. }
      unfold RNN.step. rewrite Hact.
      destruct (RNN._return_outputs cell); simpl; split; try exact Hfa;
        apply Forall_app; split; auto.
    - simpl. split; [|constructor]. constructor; [|constructor].
      unfold zeros. rewrite repeat_length. exact Hk. }
  destruct (fold_left _ _ _) as [[h ots] hts]. exact (proj2 HP).
Qed.

Lemma Forall_Forall_rev (P : vec -> Prop) (s : list (list vec)) :
  Forall (Forall P) s -> Forall (Forall P) (map (@rev vec) s).
Proof.
  intros Hs. apply Forall_map. eapply Forall_impl; [|exact Hs].
  intros l Hl. apply Forall_rev. exact Hl.
Qed.

Lemma opt_str_eqb_true (x y : option string) :
  BiDirectional.opt_str_eqb x y = true <-> x = y.
Proof.
  destruct x as [a|], y as [b'|]; simpl; split; intros E; try congruence.
  - apply String.eqb_eq in E. congruence.
  - apply String.eqb_eq. congruence.
Qed.

Lemma existsb_merge_modes (mm : option string) :
  existsb (BiDirectional.opt_str_eqb mm) BiDirectional.merge_modes = true <->
  In mm BiDirectional.merge_modes.
Proof.
  rewrite existsb_exists. split.
  - intros [y [Hin Hy]]. apply opt_str_eqb_true in Hy. subst. exact Hin.
  - intros Hin. exists mm. split; [exact Hin|]. apply opt_str_eqb_true. reflexivity.
Qed.

End BiLemmas.

(* ================================================================== *)
(** * Claims *)

Section Claims.
Context {R : Type} `{Scalar R}.
Local Abbreviation vec := (list R).

(** C1: for every rectangular input batch, [RNN.call]'s loop computes the
    spec's recurrence: starting from the zero state, each step forms
    [x_t U + h_{t-1} W], adds [b] iff [use_bias], applies the activation;
    the Python list [hts] holds [h_t] for t = 0..T-1 and, when
    [return_outputs] is set, [ots] holds [softmax(h_t V (+ c))]
    (softmax over the feature axis), else it stays empty.  The activation
    is the one the constructor stored ([RNN.init] always stores one). *)
Theorem rnn_call_recurrence (cell : @RNN.t R) (f : vec -> vec)
    (inputs : list (list vec)) :
  RNN._activation cell = Some f ->
  Forall (fun s => length s = RNN.time_steps inputs) inputs ->
  RNN.hts_of cell inputs = Reference.spec_hts cell f inputs /\
  RNN.ots_of cell inputs =
    (if RNN._return_outputs cell then Reference.spec_ots cell f inputs else []).
Proof.
  intros Hact Hrect.
  assert (Hlen : Forall (fun s => RNN.time_steps inputs <= length s) inputs).
  { eapply Forall_impl; [|exact Hrect]. simpl; intros; lia. }
  pose proof (loop_prefix cell f inputs _ Hact Hlen) as Hl.
  unfold RNN.hts_of, RNN.ots_of, RNN.loop. rewrite Hl.
  split; [reflexivity|].
  destruct (RNN._return_outputs cell); reflexivity.
Qed.

(** C3: [RNN.call] selects its result in the priority order of the spec:
    both flags give the pair (outputs, states), [return_states] alone the
    state sequence, [return_outputs] alone the output sequence, neither
    the final hidden state, i.e. the last state of the sequence (the zero
    initial state when there are no time steps). *)
Theorem rnn_call_result_selection (cell : @RNN.t R) (inputs : list (list vec)) :
  RNN.call cell inputs =
  match RNN._return_outputs cell, RNN._return_states cell with
  | true, true => RNN.OutTuple (RNN.ots_of cell inputs) (RNN.hts_of cell inputs)
  | false, true => RNN.OutList (RNN.hts_of cell inputs)
  | true, false => RNN.OutList (RNN.ots_of cell inputs)
  | false, false =>
      RNN.OutTensor (last (RNN.hts_of cell inputs) [zeros (RNN._kernel_dim cell)])
  end.
Proof.
  rewrite <- loop_h_last.
  unfold RNN.call, RNN.h_of, RNN.ots_of, RNN.hts_of.
  destruct (RNN.loop cell inputs) as [[h ots] hts].
  destruct (RNN._return_outputs cell), (RNN._return_states cell); reflexivity.
Qed.

(** C9: with the identity activation and no bias, an all-zero input batch
    of any length gives the zero vector as every hidden state [h_t]: the
    zero state is a fixed point of the recurrence.  (Scalar facts used:
    [0 * y = 0] and [0 + 0 = 0].) *)
Theorem rnn_zero_fixed_point (cell : @RNN.t R) (f : vec -> vec)
    (inputs : list (list vec)) :
  (forall y : R, s_mul s_zero y = s_zero) ->
  s_add s_zero s_zero = s_zero ->
  RNN._activation cell = Some f ->
  (forall v, f v = v) ->
  RNN._use_bias cell = false ->
  Forall (Forall (Forall (eq s_zero))) inputs ->
  Forall (Forall (Forall (eq s_zero))) (RNN.hts_of cell inputs).
Proof.
  intros Hmul Hadd Hact Hid Hnb Hin.
  unfold RNN.hts_of, RNN.loop.
  set (P := fun st : @RNN.state R =>
        let '(h, _, hts) := st in
        Forall (Forall (eq s_zero)) h /\ Forall (Forall (Forall (eq s_zero))) hts).
  assert (HP : P (fold_left (RNN.step cell inputs) (seq 0 (RNN.time_steps inputs))
                   ([zeros (RNN._kernel_dim cell)], [], []))).
  { apply fold_left_invariant.
    - intros [[h ots] hts] ti [Hh Hhts].
      assert (Ha : Forall (Forall (eq s_zero))
        (add_bcast (map (fun x => vecmat x (RNN.U cell)) (map (fun s => nth ti s []) inputs))
                   (map (fun hr => vecmat hr (RNN.W cell)) h))).
      { apply Forall_add_bcast.
        - intros; apply vadd_all_zero; auto.
        - rewrite map_map. apply Forall_map. eapply Forall_impl; [|exact Hin].
          intros s Hs. apply vecmat_all_zero; auto.
          apply Forall_nth_default; [exact Hs|constructor].
        - apply Forall_map. eapply Forall_impl; [|exact Hh].
          intros; apply vecmat_all_zero; auto. }
      unfold RNN.step. rewrite Hact, Hnb.
      assert (Hf : Forall (Forall (eq s_zero))
        (map f (add_bcast (map (fun x => vecmat x (RNN.U cell)) (map (fun s => nth ti s []) inputs))
                   (map (fun hr => vecmat hr (RNN.W cell)) h)))).
      { rewrite map_ext with (g := fun v => v) by exact Hid. rewrite map_id. exact Ha. }
      destruct (RNN._return_outputs cell); simpl; split; try exact Hf;
        apply Forall_app; split; auto.
    - simpl. split; [|constructor]. constructor; [|constructor].
      unfold zeros. apply Forall_forall. intros a Ha.
      apply repeat_spec in Ha. congruence. }
  destruct (fold_left _ _ _) as [[h ots] hts]. exact (proj2 HP).
Qed.

(** C4: for a valid id batch (every id, after the int32 coercion, indexes
    a row of the table), [Embedding.call] first coerces the ids, then
    returns a tensor of the ids' shape extended by [model_dim], whose vector
    at each position is the table row of that id multiplied element-wise
    by [model_dim ** 0.5]. *)
Theorem embedding_call_spec (e : @Embedding.t R) (x : @Embedding.IdTensor R) :
  length (Embedding.embeddings e) = Embedding._vocab_size e ->
  Forall (fun row => length row = Embedding._model_dim e) (Embedding.embeddings e) ->
  Forall (Forall (fun i => 0 <= i < Z.of_nat (Embedding._vocab_size e))%Z)
         (Embedding.K_cast_int32 x) ->
  exists out, Embedding.call e x = Ok out /\
    Forall2 (Forall2 (fun v i =>
      length v = Embedding._model_dim e /\
      v = map (fun y => s_mul y (s_pow_half (Embedding._model_dim e)))
              (nth (Z.to_nat i) (Embedding.embeddings e) [])))
      out (Embedding.K_cast_int32 x).
Proof.
  intros Hvocab Hrows Hids.
  set (g := fun i : Z => nth (Z.to_nat i) (Embedding.embeddings e) []).
  set (sc := fun v : vec => map (fun y => s_mul y (s_pow_half (Embedding._model_dim e))) v).
  assert (Hg : Embedding.K_gather (Embedding.embeddings e) (Embedding.K_cast_int32 x)
               = Ok (map (map g) (Embedding.K_cast_int32 x))).
  { apply mapM_ok. intros row Hrow. apply mapM_ok. intros i Hi.
    rewrite Forall_forall in Hids. specialize (Hids row Hrow).
    rewrite Forall_forall in Hids. specialize (Hids i Hi).
    rewrite Hvocab. destruct Hids as [Hlo Hhi].
    apply Z.leb_le in Hlo. apply Z.ltb_lt in Hhi. rewrite Hlo, Hhi. reflexivity. }
  exists (map (map sc) (map (map g) (Embedding.K_cast_int32 x))).
  split.
  - unfold Embedding.call.
    destruct x as [d|d|d]; simpl in Hg |- *; rewrite Hg; reflexivity.
  - rewrite map_map. apply Forall2_map_self. eapply Forall_impl; [|exact Hids].
    intros row Hrow. rewrite map_map. apply Forall2_map_self.
    eapply Forall_impl; [|exact Hrow]. intros i Hi. split; [|reflexivity].
    unfold sc, g. rewrite length_map.
    assert (Hin : In (nth (Z.to_nat i) (Embedding.embeddings e) [])
                     (Embedding.embeddings e)).
    { apply nth_In. rewrite Hvocab. destruct Hi as [Hlo Hhi].
      apply Nat2Z.inj_lt. rewrite Z2Nat.id by lia. exact Hhi. }
    rewrite Forall_forall in Hrows. apply Hrows, Hin.
Qed.

(** C5: calling a [BiDirectional] built around a cell with
    [return_states = False] raises the ValueError (InvalidConfiguration)
    "BiDirectional rnn cell must set `_return_states` to True." at call
    time, for every input; with [return_states = True] the call never
    raises that error. *)
Theorem bidirectional_requires_states (cell : @RNN.t R) mm bd
    (inputs : list (list vec)) :
  BiDirectional.init cell mm = Ok bd ->
  (RNN._return_states cell = false ->
     BiDirectional.call bd inputs = Err (ValueError BiDirectional.return_states_msg)) /\
  (RNN._return_states cell = true ->
     BiDirectional.call bd inputs <> Err (ValueError BiDirectional.return_states_msg)).
Proof.
  intros Hi. split; intros Hrs.
  - pose proof (init_ok cell mm bd Hi) as [_ ->].
    unfold BiDirectional.call. simpl. rewrite Hrs. reflexivity.
  - rewrite (bidir_call_states cell mm bd inputs Hi Hrs).
    pose proof (proj1 (init_ok cell mm bd Hi)) as Hm.
    destruct (BiDirectional.K_reverse_states (RNN.hts_of cell inputs)) as [fw|e] eqn:E1;
      simpl; [|apply K_reverse_states_err in E1; subst; discriminate].
    destruct (BiDirectional.K_reverse_states
                (RNN.hts_of cell (BiDirectional.K_reverse_inputs inputs))) as [bw|e] eqn:E2;
      simpl; [|apply K_reverse_states_err in E2; subst; discriminate].
    destruct (merge_accepted_ok mm fw bw Hm) as [out ->]. discriminate.
Qed.

(** C10: for a [BiDirectional] obtained from its constructor, the
    "Unrecognized value for argument merge_mode" branch of [call] is
    unreachable: [merge] succeeds on the stored mode for all state
    sequences, and [call] never raises that error. *)
Theorem bidirectional_unrecognized_unreachable (cell : @RNN.t R) mm bd :
  BiDirectional.init cell mm = Ok bd ->
  (forall fw bw : list (list vec),
     exists out, BiDirectional.merge (BiDirectional._merge_mode bd) fw bw = Ok out) /\
  (forall (inputs : list (list vec)) m,
     BiDirectional.call bd inputs <> Err (ValueError (BiDirectional.unrecognized_msg m))).
Proof.
  intros Hi. pose proof (init_ok cell mm bd Hi) as [Hm Hbd].
  split.
  - intros fw bw. rewrite Hbd. simpl. apply merge_accepted_ok, Hm.
  - intros inputs m.
    destruct (RNN._return_states cell) eqn:Hrs.
    + rewrite (bidir_call_states cell mm bd inputs Hi Hrs).
      destruct (BiDirectional.K_reverse_states (RNN.hts_of cell inputs)) as [fw|e] eqn:E1;
        simpl; [|apply K_reverse_states_err in E1; subst; discriminate].
      destruct (BiDirectional.K_reverse_states
                  (RNN.hts_of cell (BiDirectional.K_reverse_inputs inputs))) as [bw|e] eqn:E2;
        simpl; [|apply K_reverse_states_err in E2; subst; discriminate].
      destruct (merge_accepted_ok mm fw bw Hm) as [out ->]. discriminate.
    + subst bd. unfold BiDirectional.call. simpl. rewrite ?Hrs. simpl.
      intros Heq. injection Heq as Heq. discriminate Heq.
Qed.

(** C7: for an input with at least one time step and a cell of hidden
    width [Hd] returning states, [call] merges the two state sequences it
    holds before the merge ([fw], [bw]: the passes' state lists after the
    [K.reverse] of line 154) position-wise: [concat] joins the two vectors
    (width [2 Hd]); [sum], [ave] and [mul] give the element-wise sum, mean
    and product (width [Hd]); [None] returns both sequences, unmerged, as a
    pair (each of width [Hd]). *)
Theorem bidirectional_merge_modes (cell : @RNN.t R) (f : vec -> vec) (Hd : nat)
    mm bd (inputs : list (list vec)) :
  well_shaped cell Hd f ->
  RNN._return_states cell = true ->
  BiDirectional.init cell mm = Ok bd ->
  0 < RNN.time_steps inputs ->
  let fw := map (@rev vec) (RNN.hts_of cell inputs) in
  let bw := map (@rev vec) (RNN.hts_of cell (BiDirectional.K_reverse_inputs inputs)) in
  (mm = Some "concat" -> exists M,
     BiDirectional.call bd inputs = Ok (BiDirectional.OutTensor M) /\
     M = zipWith (zipWith (@app R)) fw bw /\
     Forall (Forall (fun v => length v = 2 * Hd)) M) /\
  (mm = Some "sum" -> exists M,
     BiDirectional.call bd inputs = Ok (BiDirectional.OutTensor M) /\
     M = zipWith (zipWith vadd) fw bw /\
     Forall (Forall (fun v => length v = Hd)) M) /\
  (mm = Some "ave" -> exists M,
     BiDirectional.call bd inputs = Ok (BiDirectional.OutTensor M) /\
     M = zipWith (zipWith (fun u v => map (fun z => s_div z s_two) (vadd u v))) fw bw /\
     Forall (Forall (fun v => length v = Hd)) M) /\
  (mm = Some "mul" -> exists M,
     BiDirectional.call bd inputs = Ok (BiDirectional.OutTensor M) /\
     M = zipWith (zipWith vmul) fw bw /\
     Forall (Forall (fun v => length v = Hd)) M) /\
  (mm = None ->
     BiDirectional.call bd inputs = Ok (BiDirectional.OutList fw bw) /\
     Forall (Forall (fun v => length v = Hd)) fw /\
     Forall (Forall (fun v => length v = Hd)) bw).
Proof.
  intros Hws Hrs Hi HT fw bw.
  pose proof Hws as (_ & Hact & _).
  assert (Hfw : Forall (Forall (fun v => length v = Hd)) fw)
    by (apply Forall_Forall_rev, (hts_width cell Hd f), Hws).
  assert (Hbw : Forall (Forall (fun v => length v = Hd)) bw)
    by (apply Forall_Forall_rev, (hts_width cell Hd f), Hws).
  assert (Hcall : BiDirectional.call bd inputs = BiDirectional.merge mm fw bw).
  { rewrite (bidir_call_states cell mm bd inputs Hi Hrs).
    pose proof (hts_length cell f inputs Hact) as L1.
    pose proof (hts_length cell f (BiDirectional.K_reverse_inputs inputs) Hact) as L2.
    rewrite time_steps_reverse in L2. unfold fw, bw.
    destruct (RNN.hts_of cell inputs) eqn:E1; [simpl in L1; lia|].
    destruct (RNN.hts_of cell (BiDirectional.K_reverse_inputs inputs)) eqn:E2;
      [simpl in L2; lia|].
    reflexivity. }
  assert (Hsame : forall P (g : vec -> vec -> vec),
            (forall u v, length u = Hd -> length v = Hd -> P (g u v)) ->
            Forall (Forall P) (zipWith (zipWith g) fw bw)).
  { intros P g Hg. apply (Forall_zipWith _ _ _ _ _ _ Hfw Hbw).
    intros a b' Ha Hb'. apply (Forall_zipWith _ _ _ _ _ _ Ha Hb'). exact Hg. }
  refine (conj _ (conj _ (conj _ (conj _ _)))); intros Hmm; subst mm;
    rewrite Hcall; simpl.
  - eexists; split; [reflexivity|split; [reflexivity|]].
    apply Hsame. intros u v Hu Hv. rewrite length_app. lia.
  - eexists; split; [reflexivity|split; [reflexivity|]].
    apply Hsame. intros u v Hu Hv. unfold vadd. rewrite length_zipWith. lia.
  - eexists; split; [reflexivity|split; [reflexivity|]].
    apply Hsame. intros u v Hu Hv. rewrite length_map. unfold vadd.
    rewrite length_zipWith. lia.
  - eexists; split; [reflexivity|split; [reflexivity|]].
    apply Hsame. intros u v Hu Hv. unfold vmul. rewrite length_zipWith. lia.
  - split; [reflexivity|split; assumption].
Qed.

(** C6 (as amended): [__init__] accepts exactly the five merge modes
    [sum], [mul], [ave], [concat] and [None], storing the cell and the mode;
    any other value raises, at construction and before any computation, the
    ValueError (InvalidConfiguration) with the fixed message
    'Invalid merge mode. Merge mode should be one of {"sum", "mul", "ave",
    "concat", None}', which does not depend on (and so does not name) the
    rejected value. *)
Theorem bidirectional_init_merge_mode (cell : @RNN.t R) (mm : option string) :
  (In mm BiDirectional.merge_modes ->
     exists bd, BiDirectional.init cell mm = Ok bd /\
       BiDirectional._merge_mode bd = mm /\ BiDirectional._rnn_cell bd = cell) /\
  (~ In mm BiDirectional.merge_modes ->
     BiDirectional.init cell mm = Err (ValueError BiDirectional.invalid_merge_msg)).
Proof.
  split; intros Hin; unfold BiDirectional.init.
  - apply existsb_merge_modes in Hin. rewrite Hin. simpl. eexists; eauto.
  - destruct (existsb (BiDirectional.opt_str_eqb mm) BiDirectional.merge_modes) eqn:E.
    + apply existsb_merge_modes in E. contradiction.
    + reflexivity.
Qed.

(** C8 (as amended): configuring the cell with [activation=None] does not
    disable the activation: [keras.activations.get] maps [None] to the
    identity ([linear]), so the stored activation is never [None], a
    hidden state is appended at every time step, and a call with
    [return_states] (without [return_outputs]) returns the state sequence,
    of length T. *)
Theorem rnn_activation_none_appends_states (kernel_dim : nat)
    (return_outputs return_states use_bias : bool)
    (U0 W0 : list vec) (b0 : vec) (V0 : list vec) (c0 : vec)
    (cell : @RNN.t R) (inputs : list (list vec)) :
  RNN.init kernel_dim RNN.ActNone return_outputs return_states use_bias
           U0 W0 b0 V0 c0 = Ok cell ->
  RNN._activation cell = Some (fun v => v) /\
  length (RNN.hts_of cell inputs) = RNN.time_steps inputs /\
  (return_states = true -> return_outputs = false ->
     RNN.call cell inputs = RNN.OutList (RNN.hts_of cell inputs)).
Proof.
  unfold RNN.init. simpl. intros Hi. injection Hi as <-.
  split; [reflexivity|]. split.
  - apply (hts_length _ (fun v => v)). reflexivity.
  - intros Hrs Hro. apply rnn_call_states; assumption.
Qed.

End Claims.

(* ================================================================== *)
(** * Further properties of the code *)

Section ShapeProps.
Context {R : Type} `{Scalar R}.


(** For the other merge modes, [compute_output_shape] on a tuple shape
    [(d_1, ..., d_n)] returns [t = (d_1, ..., d_{n-1}, H)] when the cell
    returns outputs and states, otherwise the RNN's two-element list
    [[t, t]]; [merge_mode=None] wraps that result in a two-element list. *)
Theorem bidirectional_cos_other_modes (bd : @BiDirectional.t R) (l : list Shape.val) :
  let t := Shape.PTuple (removelast l ++
             [Shape.PInt (Z.of_nat (RNN._kernel_dim (BiDirectional._rnn_cell bd)))]) in
  let o := if BiDirectional._return_states bd && BiDirectional._return_outputs bd
           then t else Shape.PList [t; t] in
  (forall m, BiDirectional._merge_mode bd = Some m -> m <> "concat" ->
     Shape.bidirectional_cos bd (Shape.PTuple l) = inl o) /\
  (BiDirectional._merge_mode bd = None ->
     Shape.bidirectional_cos bd (Shape.PTuple l) = inl (Shape.PList [o; o])).
Proof.
  intros t o. split; [intros m Hm Hne|intros Hm];
    unfold Shape.bidirectional_cos; rewrite Hm;
    [apply String.eqb_neq in Hne; rewrite Hne|];
    unfold o, t; simpl;
    destruct (BiDirectional._return_states bd), (BiDirectional._return_outputs bd);
    reflexivity.
Qed.

End ShapeProps.

Section EmbeddingProps.
Context {R : Type} `{Scalar R}.
Local Abbreviation vec := (list R).

Lemma mapM_ok_inv {A B} (f : A -> result B) (l : list A) (ys : list B) :
  mapM f l = Ok ys -> Forall2 (fun a y => f a = Ok y) l ys.
Proof.
  revert ys. induction l as [|a l IH]; intros ys Hm; simpl in Hm.
  - injection Hm as <-. constructor.
  - destruct (f a) as [y|e] eqn:Ef; simpl in Hm; [|discriminate].
    destruct (mapM f l) as [ys'|e] eqn:Em; simpl in Hm; [|discriminate].
    injection Hm as <-. constructor; auto.
Qed.



Lemma wrap_int32_periodic (z k : Z) :
  Embedding.wrap_int32 (z + 2 ^ 32 * k) = Embedding.wrap_int32 z.
Proof.
  unfold Embedding.wrap_int32. f_equal.
  replace (z + 2 ^ 32 * k + 2 ^ 31)%Z with (z + 2 ^ 31 + k * 2 ^ 32)%Z by ring.
  apply Z_mod_plus_full.
Qed.

Lemma wrap_int32_small (z : Z) :
  (- 2 ^ 31 <= z < 2 ^ 31)%Z -> Embedding.wrap_int32 z = z.
Proof.
  intros Hz. unfold Embedding.wrap_int32.
  rewrite Z.mod_small by lia. ring.
Qed.

(** Whenever [Embedding.call] succeeds on a non-empty batch whose first
    sequence is non-empty, the result has the shape [compute_output_shape]
    gives for the input shape [(B, T)]: [(B, T, model_dim)], with one
    sequence per input sequence, one vector per id, each of width
    [model_dim]. *)
Theorem embedding_output_shape_agrees (e : @Embedding.t R) (x : @Embedding.IdTensor R)
    (r : list Z) (rest : list (list Z)) (out : list (list vec)) :
  Embedding.K_cast_int32 x = r :: rest ->
  r <> [] ->
  Forall (fun row => length row = Embedding._model_dim e) (Embedding.embeddings e) ->
  Embedding.call e x = Ok out ->
  Shape.embedding_cos (Embedding._model_dim e)
    (Shape.PTuple [Shape.PInt (Z.of_nat (length (r :: rest)));
                   Shape.PInt (Z.of_nat (length r))]) = inl (Shape.shape3 out) /\
  Forall2 (fun o i => length o = length i) out (Embedding.K_cast_int32 x) /\
  Forall (Forall (fun v => length v = Embedding._model_dim e)) out.
Proof.
  intros Hx Hr Hrows Hc. unfold Embedding.call in Hc.
  replace (match x with Embedding.Int32T d => d | _ => Embedding.K_cast_int32 x end)
    with (Embedding.K_cast_int32 x) in Hc by (destruct x; reflexivity).
  destruct (Embedding.K_gather (Embedding.embeddings e) (Embedding.K_cast_int32 x))
    as [embs|err] eqn:Eg; simpl in Hc; [|discriminate].
  injection Hc as <-.
  apply mapM_ok_inv in Eg.
  (* every gathered vector is a row of the table *)
  assert (Hg : Forall2 (fun row o => Forall2 (fun i v =>
                 In v (Embedding.embeddings e)) row o)
                 (Embedding.K_cast_int32 x) embs).
  { eapply Forall2_impl; [|exact Eg]. intros row o Hm.
    apply mapM_ok_inv in Hm. eapply Forall2_impl; [|exact Hm].
    intros i v Hi. cbv beta in Hi.
    destruct ((0 <=? i)%Z && (i <? Z.of_nat (length (Embedding.embeddings e)))%Z)
      eqn:Eb; [|discriminate].
    injection Hi as <-. apply nth_In.
    apply andb_true_iff in Eb as [E1 E2]. apply Z.leb_le in E1. apply Z.ltb_lt in E2.
    lia. }
  set (sc := fun y => s_mul y (s_pow_half (Embedding._model_dim e))).
  assert (Hw' : forall (ids : list (list Z)) (es : list (list vec)),
            Forall2 (fun row o => Forall2 (fun i v =>
                 In v (Embedding.embeddings e)) row o) ids es ->
            Forall2 (fun row o => Forall2 (fun _ v =>
                 length v = Embedding._model_dim e) row o) ids (map (map (map sc)) es)).
  { intros ids es Hies. induction Hies as [|row o rows os Hro Hrs IH]; simpl; [constructor|].
    constructor; [|exact IH]. clear -Hro Hrows.
    induction Hro as [|i v is vs Hv Hvs IH]; simpl; [constructor|].
    constructor; [|exact IH].
    rewrite length_map. rewrite Forall_forall in Hrows. auto. }
  pose proof (Hw' _ _ Hg) as Hw.
  change (map (map (map (fun y => s_mul y (s_pow_half (Embedding._model_dim e))))) embs)
    with (map (map (map sc)) embs).
  generalize dependent (map (map (map sc)) embs). intros out Hw.
  rewrite Hx in Hw |- *.
  clear Hg Eg Hw'.
  inversion Hw as [|row o rows os Hro Hrs]; subst. clear Hw.
  split; [|split].
  - destruct r as [|i r']; [congruence|].
    inversion Hro as [|i' v is vs Hv Hvs]; subst.
    unfold Shape.embedding_cos, Shape.shape3. simpl.
    rewrite Hv. f_equal. f_equal.
    apply Forall2_length in Hrs. apply Forall2_length in Hvs.
    rewrite Hrs, Hvs. reflexivity.
  - constructor.
    + apply Forall2_length in Hro. symmetry; exact Hro.
    + clear -Hrs. induction Hrs as [|a b l l' Hab _ IH]; constructor; auto.
      apply Forall2_length in Hab. symmetry; exact Hab.
  - constructor.
    + clear -Hro. induction Hro; constructor; auto.
    + clear -Hrs. induction Hrs as [|row' o' rows' os' Hro' _ IH]; constructor; auto.
      clear IH. induction Hro'; constructor; auto.
Qed.


(** int64 ids are cast to int32 with wrap-around: ids that differ by a
    multiple of 2^32 give the same result, and int64 ids inside the int32
    range give the same result as the same ids given as int32. *)
Theorem embedding_int64_ids_wrap (e : @Embedding.t R) (d : list (list Z)) (k : Z) :
  Embedding.call e (Embedding.Int64T (map (map (fun z => z + 2 ^ 32 * k)%Z) d))
    = Embedding.call e (Embedding.Int64T d) /\
  (Forall (Forall (fun z => - 2 ^ 31 <= z < 2 ^ 31)%Z) d ->
   Embedding.call e (Embedding.Int64T d) = Embedding.call e (Embedding.Int32T d)).
Proof.
  split.
  - unfold Embedding.call, Embedding.K_cast_int32.
    replace (map (map Embedding.wrap_int32) (map (map (fun z => z + 2 ^ 32 * k)%Z) d))
      with (map (map Embedding.wrap_int32) d); [reflexivity|].
    rewrite map_map. apply map_ext. intros row. rewrite map_map.
    apply map_ext. intros z. symmetry. apply wrap_int32_periodic.
  - intros Hd. unfold Embedding.call, Embedding.K_cast_int32.
    replace (map (map Embedding.wrap_int32) d) with d; [reflexivity|].
    induction Hd as [|row d Hrow Hd IH]; simpl; [reflexivity|].
    rewrite <- IH. f_equal.
    induction Hrow as [|z row Hz Hrow IH2]; simpl; [reflexivity|].
    rewrite wrap_int32_small by exact Hz. rewrite <- IH2. reflexivity.
Qed.

End EmbeddingProps.

Section RNNProps.
Context {R : Type} `{Scalar R}.
Local Abbreviation vec := (list R).

(** Two cells that agree on everything the state update reads. *)
Section SameCore.
Variables c1 c2 : @RNN.t R.
Hypothesis Hkd : RNN._kernel_dim c1 = RNN._kernel_dim c2.
Hypothesis Hact : RNN._activation c1 = RNN._activation c2.
Hypothesis Hub : RNN._use_bias c1 = RNN._use_bias c2.
Hypothesis HU : RNN.U c1 = RNN.U c2.
Hypothesis HW : RNN.W c1 = RNN.W c2.
Hypothesis Hb : RNN._use_bias c1 = true -> RNN.b c1 = RNN.b c2.

Lemma step_same_core (inputs : list (list vec)) (h : list vec)
    (ots1 ots2 hts : list (list vec)) (ti : nat) :
  fst (fst (RNN.step c1 inputs (h, ots1, hts) ti)) =
    fst (fst (RNN.step c2 inputs (h, ots2, hts) ti)) /\
  snd (RNN.step c1 inputs (h, ots1, hts) ti) =
    snd (RNN.step c2 inputs (h, ots2, hts) ti).
Proof.
  unfold RNN.step. rewrite <- Hact, <- Hub, <- HU, <- HW.
  destruct (RNN._use_bias c1) eqn:Eb; [rewrite <- (Hb eq_refl)|];
    destruct (RNN._activation c1) as [f|];
    destruct (RNN._return_outputs c1), (RNN._return_outputs c2); simpl;
    split; reflexivity.
Qed.

Lemma fold_same_core (inputs : list (list vec)) (l : list nat) :
  forall h ots1 ots2 hts,
  fst (fst (fold_left (RNN.step c1 inputs) l (h, ots1, hts))) =
    fst (fst (fold_left (RNN.step c2 inputs) l (h, ots2, hts))) /\
  snd (fold_left (RNN.step c1 inputs) l (h, ots1, hts)) =
    snd (fold_left (RNN.step c2 inputs) l (h, ots2, hts)).
Proof.
  induction l as [|ti l IH]; intros h ots1 ots2 hts; cbn [fold_left];
    [split; reflexivity|].
  pose proof (step_same_core inputs h ots1 ots2 hts ti) as [E1 E2].
  destruct (RNN.step c1 inputs (h, ots1, hts) ti) as [[h1 o1] s1].
  destruct (RNN.step c2 inputs (h, ots2, hts) ti) as [[h2 o2] s2].
  simpl in E1, E2. subst h2 s2. apply IH.
Qed.

Lemma hts_h_same_core (inputs : list (list vec)) :
  RNN.hts_of c1 inputs = RNN.hts_of c2 inputs /\
  RNN.h_of c1 inputs = RNN.h_of c2 inputs.
Proof.
  unfold RNN.hts_of, RNN.h_of, RNN.loop. rewrite <- Hkd.
  pose proof (fold_same_core inputs (seq 0 (RNN.time_steps inputs))
                [zeros (RNN._kernel_dim c1)] [] [] []) as [E1 E2].
  destruct (fold_left (RNN.step c1 inputs) _ _) as [[h1 o1] s1].
  destruct (fold_left (RNN.step c2 inputs) _ _) as [[h2 o2] s2].
  simpl in E1, E2. split; assumption.
Qed.

End SameCore.

Lemma loop_no_steps (cell : @RNN.t R) (inputs : list (list vec)) :
  RNN.time_steps inputs = 0 ->
  RNN.loop cell inputs = ([zeros (RNN._kernel_dim cell)], [], []).
Proof. intros HT. unfold RNN.loop. rewrite HT. reflexivity. Qed.

Lemma last_In_nonempty {A} (l : list A) (d : A) :
  l <> [] -> In (last l d) l.
Proof.
  intros Hl. rewrite (app_removelast_last d Hl) at 2.
  apply in_or_app. right. left. reflexivity.
Qed.

(** The state sequence and the final state never read the output head:
    two cells that differ only in [return_outputs], [return_states], [V],
    [c] (and in [b] when [use_bias] is off) compute the same [hts] and the
    same final [h_t] on every input. *)
Theorem rnn_states_ignore_output_head (c1 c2 : @RNN.t R) (inputs : list (list vec)) :
  RNN._kernel_dim c1 = RNN._kernel_dim c2 ->
  RNN._activation c1 = RNN._activation c2 ->
  RNN._use_bias c1 = RNN._use_bias c2 ->
  RNN.U c1 = RNN.U c2 ->
  RNN.W c1 = RNN.W c2 ->
  (RNN._use_bias c1 = true -> RNN.b c1 = RNN.b c2) ->
  RNN.hts_of c1 inputs = RNN.hts_of c2 inputs /\
  RNN.h_of c1 inputs = RNN.h_of c2 inputs.
Proof. intros; apply hts_h_same_core; assumption. Qed.

(** With no time steps ([inputs.shape[1] == 0]) the loop body never runs:
    [hts] and [ots] stay empty and, with neither flag set, [call] returns
    the initial zero state, a single row of width [kernel_dim], whatever
    the batch size. *)
Theorem rnn_no_time_steps (cell : @RNN.t R) (inputs : list (list vec)) :
  RNN.time_steps inputs = 0 ->
  RNN.hts_of cell inputs = [] /\ RNN.ots_of cell inputs = [] /\
  (RNN._return_outputs cell = false -> RNN._return_states cell = false ->
   RNN.call cell inputs = RNN.OutTensor [zeros (RNN._kernel_dim cell)]).
Proof.
  intros HT. unfold RNN.hts_of, RNN.ots_of, RNN.call.
  rewrite (loop_no_steps cell inputs HT).
  split; [reflexivity|split; [reflexivity|]].
  intros Hro Hrs. rewrite Hro, Hrs. reflexivity.
Qed.

(** With at least one time step, a rectangular batch and neither flag set,
    [call] returns the last state [h_T] with one row per batch element,
    each of the hidden width. *)
Theorem rnn_final_state_shape (cell : @RNN.t R) (Hd : nat) (f : vec -> vec)
    (inputs : list (list vec)) :
  well_shaped cell Hd f ->
  Forall (fun s => length s = RNN.time_steps inputs) inputs ->
  0 < RNN.time_steps inputs ->
  RNN._return_outputs cell = false ->
  RNN._return_states cell = false ->
  exists h, RNN.call cell inputs = RNN.OutTensor h /\
    length h = length inputs /\ Forall (fun v => length v = Hd) h.
Proof.
  intros Hws Hrect HT Hro Hrs.
  pose proof Hws as (_ & Hact & _).
  exists (RNN.h_of cell inputs). split.
  { unfold RNN.call, RNN.h_of.
    destruct (RNN.loop cell inputs) as [[h ots] hts]. rewrite Hro, Hrs. reflexivity. }
  split.
  - assert (Hlen : Forall (fun s => RNN.time_steps inputs <= length s) inputs).
    { eapply Forall_impl; [|exact Hrect]. simpl; intros; lia. }
    pose proof (loop_prefix cell f inputs _ Hact Hlen) as Hl.
    unfold RNN.h_of, RNN.loop. rewrite Hl.
    destruct (RNN.time_steps inputs) as [|T]; [lia|]. apply length_map.
  - rewrite loop_h_last.
    pose proof (hts_width cell Hd f inputs Hws) as Hw.
    pose proof (hts_length cell f inputs Hact) as L.
    rewrite Forall_forall in Hw. apply Hw, last_In_nonempty.
    intros E. rewrite E in L. simpl in L. lia.
Qed.


(** [BiDirectional.call] does not depend on the wrapped cell's output
    head: for two cells that agree on everything but [return_outputs],
    [V] and [c] (and [b] when [use_bias] is off), wrappers built with the
    same merge mode give the same result (the same value or the same
    error) on every input. *)
Theorem bidirectional_ignores_output_head (c1 c2 : @RNN.t R) mm bd1 bd2
    (inputs : list (list vec)) :
  BiDirectional.init c1 mm = Ok bd1 ->
  BiDirectional.init c2 mm = Ok bd2 ->
  RNN._return_states c1 = RNN._return_states c2 ->
  RNN._kernel_dim c1 = RNN._kernel_dim c2 ->
  RNN._activation c1 = RNN._activation c2 ->
  RNN._use_bias c1 = RNN._use_bias c2 ->
  RNN.U c1 = RNN.U c2 ->
  RNN.W c1 = RNN.W c2 ->
  (RNN._use_bias c1 = true -> RNN.b c1 = RNN.b c2) ->
  BiDirectional.call bd1 inputs = BiDirectional.call bd2 inputs.
Proof.
  intros Hi1 Hi2 Hrs Hkd Hact Hub HU HW Hb.
  destruct (RNN._return_states c1) eqn:Hrs1.
  - rewrite (bidir_call_states c1 mm bd1 inputs Hi1 Hrs1).
    rewrite (bidir_call_states c2 mm bd2 inputs Hi2 (eq_sym Hrs)).
    rewrite (proj1 (hts_h_same_core c1 c2 Hkd Hact Hub HU HW Hb inputs)).
    rewrite (proj1 (hts_h_same_core c1 c2 Hkd Hact Hub HU HW Hb
                      (BiDirectional.K_reverse_inputs inputs))).
    reflexivity.
  - apply init_ok in Hi1 as [_ ->]. apply init_ok in Hi2 as [_ ->].
    unfold BiDirectional.call. simpl. rewrite Hrs1, <- Hrs. reflexivity.
Qed.

Lemma zipWith_comm {A B} (g : A -> A -> B) (l1 l2 : list A) :
  (forall a b', g a b' = g b' a) -> zipWith g l1 l2 = zipWith g l2 l1.
Proof.
  intros Hg. revert l2. induction l1 as [|a l1 IH]; destruct l2 as [|b' l2];
    simpl; try reflexivity.
  rewrite Hg, IH. reflexivity.
Qed.

Lemma K_reverse_inputs_involutive (inputs : list (list vec)) :
  BiDirectional.K_reverse_inputs (BiDirectional.K_reverse_inputs inputs) = inputs.
Proof.
  unfold BiDirectional.K_reverse_inputs. rewrite map_map.
  rewrite map_ext with (g := fun s => s) by apply rev_involutive.
  apply map_id.
Qed.

(** Reversing every input sequence in time swaps the two passes: with
    [merge_mode=None] the returned pair is swapped, and the symmetric merges
    [sum] and [ave] (for a commutative [+]) and [mul] (for a commutative
    [*]) give the same result (or the same error) as on the original
    input. *)
Theorem bidirectional_time_reversal (cell : @RNN.t R) mm bd (inputs : list (list vec)) :
  BiDirectional.init cell mm = Ok bd ->
  RNN._return_states cell = true ->
  (mm = None -> forall fw bw,
     BiDirectional.call bd inputs = Ok (BiDirectional.OutList fw bw) ->
     BiDirectional.call bd (BiDirectional.K_reverse_inputs inputs)
       = Ok (BiDirectional.OutList bw fw)) /\
  ((forall x y : R, s_add x y = s_add y x) ->
   mm = Some "sum" \/ mm = Some "ave" ->
     BiDirectional.call bd (BiDirectional.K_reverse_inputs inputs)
       = BiDirectional.call bd inputs) /\
  ((forall x y : R, s_mul x y = s_mul y x) ->
   mm = Some "mul" ->
     BiDirectional.call bd (BiDirectional.K_reverse_inputs inputs)
       = BiDirectional.call bd inputs).
Proof.
  intros Hi Hrs.
  rewrite (bidir_call_states cell mm bd inputs Hi Hrs).
  rewrite (bidir_call_states cell mm bd _ Hi Hrs).
  rewrite K_reverse_inputs_involutive.
  destruct (BiDirectional.K_reverse_states (RNN.hts_of cell inputs)) as [a|e1] eqn:Ea;
  destruct (BiDirectional.K_reverse_states
              (RNN.hts_of cell (BiDirectional.K_reverse_inputs inputs))) as [b'|e2] eqn:Eb;
  simpl;
  try (apply K_reverse_states_err in Ea); try (apply K_reverse_states_err in Eb); subst;
  (refine (conj _ (conj _ _));
   [intros Hmm fw bw Hc; subst mm; simpl in *; try discriminate;
    injection Hc as <- <-; reflexivity
   |intros Hc [Hmm|Hmm]; subst mm; simpl; try reflexivity
   |intros Hc Hmm; subst mm; simpl; try reflexivity]).
  - f_equal. f_equal. apply zipWith_comm. intros u v. apply zipWith_comm.
    intros x y. apply zipWith_comm. exact Hc.
  - f_equal. f_equal. apply zipWith_comm. intros u v. apply zipWith_comm.
    intros x y. f_equal. apply zipWith_comm. exact Hc.
  - f_equal. f_equal. apply zipWith_comm. intros u v. apply zipWith_comm.
    intros x y. apply zipWith_comm. exact Hc.
Qed.

End RNNProps.

(* ------------------------------------------------------------------ *)
(** * Examples, counterexamples and witnesses on the integer instance *)

Module ExamplesZ.
Import Examples.

Example cell_init_linear :
  RNN.init 1 (RNN.ActName "linear") false true false [[1%Z]] [[1%Z]] [0%Z]
           [[1%Z]] [0%Z] = Ok (cell_ex false true).
Proof. reflexivity. Qed.

Example rnn_states_seq_ex :
  RNN.call (cell_ex false true) seq_ex = RNN.OutList [[[1%Z]]; [[3%Z]]].
Proof. reflexivity. Qed.

Example embedding_ex :
  Embedding.call emb_ex (Embedding.Int32T [[1%Z; 2%Z; 3%Z]]) =
  Ok [[[2%Z; 2%Z; 2%Z; 2%Z]; [4%Z; 4%Z; 4%Z; 4%Z]; [6%Z; 6%Z; 6%Z; 6%Z]]].
Proof. reflexivity. Qed.

(** C2, evaluated: with [merge_mode=None] the wrapper returns the two
    sequences it merges.  On the one-sequence input [1, 2] the backward pass
    yields its states in its own processing order [[2]; [3]] (after x_1,
    then after x_1, x_0) and the wrapper returns them in that order, not
    in forward time order ([[3]; [2]]): [K.reverse(bw_states, 1)] acts on
    the batch axis of the stacked (T, B, 1, H) states.  On the two-sequence
    batch [[1]], [[5]] the same [K.reverse] also reverses the forward
    states' batch order ([[1]; [5]] becomes [[5]; [1]]). *)
Lemma bidirectional_states_not_realigned :
  BiDirectional.init (cell_ex false true) None = Ok (bd_of (cell_ex false true) None) /\
  RNN.hts_of (cell_ex false true) seq_ex = [[[1%Z]]; [[3%Z]]] /\
  RNN.hts_of (cell_ex false true) (BiDirectional.K_reverse_inputs seq_ex)
    = [[[2%Z]]; [[3%Z]]] /\
  BiDirectional.call (bd_of (cell_ex false true) None) seq_ex
    = Ok (BiDirectional.OutList [[[1%Z]]; [[3%Z]]] [[[2%Z]]; [[3%Z]]]) /\
  RNN.hts_of (cell_ex false true) batch_ex = [[[1%Z]; [5%Z]]] /\
  BiDirectional.call (bd_of (cell_ex false true) None) batch_ex
    = Ok (BiDirectional.OutList [[[5%Z]; [1%Z]]] [[[5%Z]; [1%Z]]]).
Proof. repeat split; reflexivity. Qed.

(** C6 counterexample: constructing with [merge_mode="xor"] raises a
    ValueError whose message does not contain "xor". *)
Lemma bidirectional_init_xor_not_named :
  ~ (exists msg, BiDirectional.init (cell_ex false true) (Some "xor") = Err (ValueError msg) /\
                 BiDirectional.str_contains "xor" msg = true).
Proof.
  intros [msg [Hi Hc]]. vm_compute in Hi. injection Hi as <-.
  vm_compute in Hc. discriminate Hc.
Qed.

(** C8 counterexample: a cell configured with [activation=None] and
    [return_states=True] returns a non-empty state sequence on a one-step
    input. *)
Lemma rnn_activation_none_nonempty_states :
  exists cell,
    RNN.init 1 RNN.ActNone false true false [[1%Z]] [[1%Z]] [0%Z] [[1%Z]] [0%Z]
      = Ok cell /\
    RNN._return_states cell = true /\
    RNN.call cell [[[1%Z]]] = RNN.OutList [[[1%Z]]] /\
    RNN.call cell [[[1%Z]]] <> RNN.OutList [].
Proof.
  exists (cell_ex false true). split; [reflexivity|].
  split; [reflexivity|]. split; [reflexivity|]. discriminate.
Qed.

(** Witnesses: each theorem with hypotheses, applied at a concrete input. *)

Lemma rnn_call_recurrence_witness :
  RNN.hts_of (cell_ex true true) seq_ex
    = Reference.spec_hts (cell_ex true true) (fun v => v) seq_ex /\
  RNN.ots_of (cell_ex true true) seq_ex
    = (if RNN._return_outputs (cell_ex true true)
       then Reference.spec_ots (cell_ex true true) (fun v => v) seq_ex else []).
Proof.
  apply (rnn_call_recurrence (cell_ex true true) (fun v => v) seq_ex).
  - reflexivity.
  - repeat constructor.
Defined.

Lemma rnn_zero_fixed_point_witness :
  Forall (Forall (Forall (eq s_zero)))
         (RNN.hts_of (cell_ex false true) [[[0%Z]; [0%Z]; [0%Z]]]).
Proof.
  apply (rnn_zero_fixed_point (cell_ex false true) (fun v => v)).
  - intros y. reflexivity.
  - reflexivity.
  - reflexivity.
  - intros v. reflexivity.
  - reflexivity.
  - repeat constructor.
Defined.

Lemma embedding_call_spec_witness :
  exists out, Embedding.call emb_ex (Embedding.Int32T [[1%Z; 2%Z; 3%Z]]) = Ok out /\
    Forall2 (Forall2 (fun v i =>
      length v = Embedding._model_dim emb_ex /\
      v = map (fun y => s_mul y (s_pow_half (Embedding._model_dim emb_ex)))
              (nth (Z.to_nat i) (Embedding.embeddings emb_ex) [])))
      out (Embedding.K_cast_int32 (Embedding.Int32T [[1%Z; 2%Z; 3%Z]])).
Proof.
  apply embedding_call_spec.
  - reflexivity.
  - simpl. repeat constructor.
  - simpl. repeat constructor; lia.
Defined.

Lemma bidirectional_requires_states_witness :
  (RNN._return_states (cell_ex false false) = false ->
     BiDirectional.call (bd_of (cell_ex false false) None) seq_ex
       = Err (ValueError BiDirectional.return_states_msg)) /\
  (RNN._return_states (cell_ex false false) = true ->
     BiDirectional.call (bd_of (cell_ex false false) None) seq_ex
       <> Err (ValueError BiDirectional.return_states_msg)).
Proof.
  apply (bidirectional_requires_states (cell_ex false false) None).
  reflexivity.
Defined.

Lemma bidirectional_unrecognized_unreachable_witness :
  (forall fw bw : list (list (list Z)),
     exists out, BiDirectional.merge
       (BiDirectional._merge_mode (bd_of (cell_ex false true) (Some "sum"))) fw bw = Ok out) /\
  (forall (inputs : list (list (list Z))) m,
     BiDirectional.call (bd_of (cell_ex false true) (Some "sum")) inputs
       <> Err (ValueError (BiDirectional.unrecognized_msg m))).
Proof.
  apply (bidirectional_unrecognized_unreachable (cell_ex false true) (Some "sum")).
  reflexivity.
Defined.

Lemma bidirectional_merge_modes_witness :
  let fw := map (@rev (list Z)) (RNN.hts_of (cell_ex false true) seq_ex) in
  let bw := map (@rev (list Z))
               (RNN.hts_of (cell_ex false true) (BiDirectional.K_reverse_inputs seq_ex)) in
  (Some "concat" = Some "concat" -> exists M,
     BiDirectional.call (bd_of (cell_ex false true) (Some "concat")) seq_ex
       = Ok (BiDirectional.OutTensor M) /\
     M = zipWith (zipWith (@app Z)) fw bw /\
     Forall (Forall (fun v => length v = 2 * 1)) M) /\
  (Some "concat" = Some "sum" -> exists M,
     BiDirectional.call (bd_of (cell_ex false true) (Some "concat")) seq_ex
       = Ok (BiDirectional.OutTensor M) /\
     M = zipWith (zipWith vadd) fw bw /\
     Forall (Forall (fun v => length v = 1)) M) /\
  (Some "concat" = Some "ave" -> exists M,
     BiDirectional.call (bd_of (cell_ex false true) (Some "concat")) seq_ex
       = Ok (BiDirectional.OutTensor M) /\
     M = zipWith (zipWith (fun u v => map (fun z => s_div z s_two) (vadd u v))) fw bw /\
     Forall (Forall (fun v => length v = 1)) M) /\
  (Some "concat" = Some "mul" -> exists M,
     BiDirectional.call (bd_of (cell_ex false true) (Some "concat")) seq_ex
       = Ok (BiDirectional.OutTensor M) /\
     M = zipWith (zipWith vmul) fw bw /\
     Forall (Forall (fun v => length v = 1)) M) /\
  (Some "concat" = None ->
     BiDirectional.call (bd_of (cell_ex false true) (Some "concat")) seq_ex
       = Ok (BiDirectional.OutList fw bw) /\
     Forall (Forall (fun v => length v = 1)) fw /\
     Forall (Forall (fun v => length v = 1)) bw).
Proof.
  apply (bidirectional_merge_modes (cell_ex false true) (fun v => v) 1 (Some "concat")).
  - unfold well_shaped. simpl.
    split; [reflexivity|]. split; [reflexivity|]. split; [reflexivity|].
    split; [reflexivity|]. split; [repeat constructor|].
    split; [reflexivity|]. split; [repeat constructor|]. discriminate.
  - reflexivity.
  - reflexivity.
  - simpl. lia.
Defined.

Lemma bidirectional_init_merge_mode_witness :
  (In (Some "sum") BiDirectional.merge_modes ->
     exists bd, BiDirectional.init (cell_ex false true) (Some "sum") = Ok bd /\
       BiDirectional._merge_mode bd = Some "sum" /\
       BiDirectional._rnn_cell bd = cell_ex false true) /\
  (~ In (Some "sum") BiDirectional.merge_modes ->
     BiDirectional.init (cell_ex false true) (Some "sum")
       = Err (ValueError BiDirectional.invalid_merge_msg)).
Proof.
  exact (bidirectional_init_merge_mode (cell_ex false true) (Some "sum")).
Defined.

Lemma rnn_activation_none_appends_states_witness :
  RNN._activation (cell_ex false true) = Some (fun v => v) /\
  length (RNN.hts_of (cell_ex false true) seq_ex) = RNN.time_steps seq_ex /\
  (true = true -> false = false ->
     RNN.call (cell_ex false true) seq_ex
       = RNN.OutList (RNN.hts_of (cell_ex false true) seq_ex)).
Proof.
  apply (rnn_activation_none_appends_states 1 false true false
           [[1%Z]] [[1%Z]] [0%Z] [[1%Z]] [0%Z]).
  reflexivity.
Defined.

End ExamplesZ.

(** * The further properties, applied at concrete inputs *)

Module ExtrasZ.
Import Examples.


Lemma embedding_output_shape_agrees_witness :
  Shape.embedding_cos (Embedding._model_dim emb_ex)
    (Shape.PTuple [Shape.PInt (Z.of_nat (length [[1%Z; 2%Z; 3%Z]]));
                   Shape.PInt (Z.of_nat (length [1%Z; 2%Z; 3%Z]))])
    = inl (Shape.shape3 [[[2%Z; 2%Z; 2%Z; 2%Z]; [4%Z; 4%Z; 4%Z; 4%Z]; [6%Z; 6%Z; 6%Z; 6%Z]]]) /\
  Forall2 (fun o i => length o = length i)
    [[[2%Z; 2%Z; 2%Z; 2%Z]; [4%Z; 4%Z; 4%Z; 4%Z]; [6%Z; 6%Z; 6%Z; 6%Z]]]
    (Embedding.K_cast_int32 (Embedding.Int32T [[1%Z; 2%Z; 3%Z]])) /\
  Forall (Forall (fun v => length v = Embedding._model_dim emb_ex))
    [[[2%Z; 2%Z; 2%Z; 2%Z]; [4%Z; 4%Z; 4%Z; 4%Z]; [6%Z; 6%Z; 6%Z; 6%Z]]].
Proof.
  apply (embedding_output_shape_agrees emb_ex (Embedding.Int32T [[1%Z; 2%Z; 3%Z]])
           [1%Z; 2%Z; 3%Z] []).
  - reflexivity.
  - discriminate.
  - simpl. repeat constructor.
  - reflexivity.
Defined.


Lemma rnn_states_ignore_output_head_witness :
  RNN.hts_of (cell_ex false true) seq_ex = RNN.hts_of cell_head seq_ex /\
  RNN.h_of (cell_ex false true) seq_ex = RNN.h_of cell_head seq_ex.
Proof.
  apply (rnn_states_ignore_output_head (cell_ex false true) cell_head seq_ex);
    try reflexivity; discriminate.
Defined.

Lemma rnn_no_time_steps_witness :
  RNN.hts_of (cell_ex false false) [[]; []] = [] /\
  RNN.ots_of (cell_ex false false) [[]; []] = [] /\
  (RNN._return_outputs (cell_ex false false) = false ->
   RNN._return_states (cell_ex false false) = false ->
   RNN.call (cell_ex false false) [[]; []]
     = RNN.OutTensor [zeros (RNN._kernel_dim (cell_ex false false))]).
Proof. apply (rnn_no_time_steps (cell_ex false false) [[]; []]). reflexivity. Defined.

Lemma rnn_final_state_shape_witness :
  exists h, RNN.call (cell_ex false false) batch_ex = RNN.OutTensor h /\
    length h = length batch_ex /\ Forall (fun v => length v = 1) h.
Proof.
  apply (rnn_final_state_shape (cell_ex false false) 1 (fun v => v) batch_ex).
  - unfold well_shaped. simpl.
    split; [reflexivity|]. split; [reflexivity|]. split; [reflexivity|].
    split; [reflexivity|]. split; [repeat constructor|].
    split; [reflexivity|]. split; [repeat constructor|]. discriminate.
  - repeat constructor.
  - simpl. lia.
  - reflexivity.
  - reflexivity.
Defined.


Lemma bidirectional_ignores_output_head_witness :
  BiDirectional.call (bd_of (cell_ex false true) (Some "sum")) seq_ex
    = BiDirectional.call (bd_of cell_head (Some "sum")) seq_ex.
Proof.
  apply (bidirectional_ignores_output_head (cell_ex false true) cell_head (Some "sum"));
    try reflexivity; discriminate.
Defined.

Lemma bidirectional_time_reversal_witness :
  (None = @None string -> forall fw bw,
     BiDirectional.call (bd_of (cell_ex false true) None) seq_ex
       = Ok (BiDirectional.OutList fw bw) ->
     BiDirectional.call (bd_of (cell_ex false true) None)
       (BiDirectional.K_reverse_inputs seq_ex) = Ok (BiDirectional.OutList bw fw)) /\
  ((forall x y : Z, s_add x y = s_add y x) ->
   @None string = Some "sum" \/ @None string = Some "ave" ->
     BiDirectional.call (bd_of (cell_ex false true) None)
       (BiDirectional.K_reverse_inputs seq_ex)
       = BiDirectional.call (bd_of (cell_ex false true) None) seq_ex) /\
  ((forall x y : Z, s_mul x y = s_mul y x) ->
   @None string = Some "mul" ->
     BiDirectional.call (bd_of (cell_ex false true) None)
       (BiDirectional.K_reverse_inputs seq_ex)
       = BiDirectional.call (bd_of (cell_ex false true) None) seq_ex).
Proof.
  apply (bidirectional_time_reversal (cell_ex false true) None); reflexivity.
Defined.

End ExtrasZ.
